(** * DynamicProperty.js: a constant-valued, observable property

    A shallow embedding of [src/js/DynamicProperty.js].  The file has one
    constructor function, [DynamicProperty], an accessor pair [isConstant],
    a read-only accessor [definitionChanged], and three prototype methods,
    [getValue], [setValue] and [equals].

    The methods mutate the receiver ([this._value = ...]) and call into
    code the file does not own: the [clone] and [equals] methods of the
    value being stored, and [Cesium.Event.raiseEvent].  They are embedded
    as actions of a state-and-exception monad over a [World] that holds
    the host's object heap, the store of property instances and the
    journal of raised events. *)

From Stdlib Require Import ZArith String.
From Stdlib Require Import Floats.PrimFloat Floats.SpecFloat Floats.FloatOps.
From Stdlib Require Import Floats.FloatAxioms.
From stdpp Require Import base option list gmap.

Set Default Proof Using "Type".

(** ** JavaScript values *)

(** Heap addresses: object identity is address identity. *)
Abbreviation addr := nat.

(** The values a caller can hand to [setValue]: the primitives and
    references to host objects.  Numbers are IEEE 754 doubles, as in
    JavaScript.  A property instance is not one of them: a property
    stored inside a property is outside this development. *)
Inductive JsValue : Type :=
| VUndefined
| VNull
| VBoolean (b : bool)
| VNumber (x : float)
| VString (s : string)
| VObject (a : addr).

(** What a method argument such as [other] in [equals(other)] can be: a
    [DynamicProperty] instance, named by its address in the instance
    store, or any other value. *)
Inductive Operand : Type :=
| Instance (q : addr)
| Foreign (v : JsValue).

(** [a === b] on values.  On numbers this is IEEE equality, so [NaN] is
    not identical to itself and the two zeros are identical. *)
Definition strict_equals (a b : JsValue) : bool :=
  match a, b with
  | VUndefined, VUndefined => true
  | VNull, VNull => true
  | VBoolean x, VBoolean y => Bool.eqb x y
  | VNumber x, VNumber y => PrimFloat.eqb x y
  | VString x, VString y => String.eqb x y
  | VObject x, VObject y => Nat.eqb x y
  | _, _ => false
  end.

(** [this === other] for a receiver that is a property instance. *)
Definition same_instance (this : addr) (other : Operand) : bool :=
  match other with
  | Instance q => Nat.eqb this q
  | Foreign _ => false
  end.

(** Modelled from the spec: [Cesium.defined], which is not part of the
    file ("a value is defined when non-absent"); it is
    [value !== undefined && value !== null]. *)
Definition defined (value : JsValue) : bool :=
  match value with
  | VUndefined | VNull => false
  | _ => true
  end.

(** ** The host: objects and their [clone] and [equals] methods *)

(** [DynamicProperty] never looks inside a value.  It asks two questions,
    [typeof value.clone === 'function'] and
    [typeof value.equals === 'function'], and calls the two methods.  The
    host interface supplies the answers and the method bodies.  [clone]
    may allocate or write into its [result] argument, so it returns a new
    heap; [equals] is an observation and returns a boolean
    ("equals(other) -> boolean").  A method that exists is taken to
    return: an exception raised inside a value's own method is outside
    this interface, and no statement below is about one. *)
Class Host : Type := {
  Heap : Type;
  typeof_clone : Heap → JsValue → bool;
  typeof_equals : Heap → JsValue → bool;
  clone_body : Heap → JsValue → JsValue → Heap * JsValue;
  equals_body : Heap → JsValue → JsValue → bool
}.

(** Exceptions the embedded code can raise. *)
Inductive JsError : Type :=
| TypeError.

Inductive Completion (A : Type) : Type :=
| Normal (a : A)
| Throw (e : JsError).
Arguments Normal {A} a.
Arguments Throw {A} e.

(** ** Events *)

(** A subscribed callback, named by its identity. *)
Abbreviation Listener := nat.

(** Modelled from the spec: [Cesium.Event], which is not part of the file:
    an ordered collection of listeners with subscribe, unsubscribe and a
    publish that invokes the listeners synchronously in registration
    order. *)
Record Event : Type := mkEvent {
  _listeners : list Listener
}.

(** One call of [raiseEvent]: the instance whose event was raised, the
    argument list passed to every listener, and the listeners it was
    delivered to, in order. *)
Record Raised : Type := mkRaised {
  emitter : addr;
  arguments : list Operand;
  delivered : list Listener
}.

(** ** Instances *)

(** The fields the constructor creates, under the names it gives them. *)
Record DynamicProperty : Type := mkDynamicProperty {
  _value : JsValue;
  _hasClone : bool;
  _hasEquals : bool;
  _definitionChanged : Event;
  _constant : JsValue
}.

Definition with_value (v : JsValue) (p : DynamicProperty) : DynamicProperty :=
  mkDynamicProperty v (_hasClone p) (_hasEquals p) (_definitionChanged p) (_constant p).

Definition with_hasClone (b : bool) (p : DynamicProperty) : DynamicProperty :=
  mkDynamicProperty (_value p) b (_hasEquals p) (_definitionChanged p) (_constant p).

Definition with_hasEquals (b : bool) (p : DynamicProperty) : DynamicProperty :=
  mkDynamicProperty (_value p) (_hasClone p) b (_definitionChanged p) (_constant p).

Definition with_definitionChanged (e : Event) (p : DynamicProperty) : DynamicProperty :=
  mkDynamicProperty (_value p) (_hasClone p) (_hasEquals p) e (_constant p).

Definition with_constant (c : JsValue) (p : DynamicProperty) : DynamicProperty :=
  mkDynamicProperty (_value p) (_hasClone p) (_hasEquals p) (_definitionChanged p) c.

Section Semantics.
Context {host : Host}.

(** ** The world and its actions *)

Record World : Type := mkWorld {
  heap : Heap;
  instances : gmap addr DynamicProperty;
  journal : list Raised
}.

Definition with_heap (h : Heap) (w : World) : World :=
  mkWorld h (instances w) (journal w).

Definition with_instances (m : gmap addr DynamicProperty) (w : World) : World :=
  mkWorld (heap w) m (journal w).

Definition with_journal (j : list Raised) (w : World) : World :=
  mkWorld (heap w) (instances w) j.

(** A piece of JavaScript: it runs in a world and either completes
    with a result and a new world, or throws. *)
Definition Action (A : Type) : Type := World → Completion (A * World).

#[export] Instance Action_ret : MRet Action :=
  λ A (a : A) w, Normal (a, w).

#[export] Instance Action_bind : MBind Action :=
  λ A B (k : A → Action B) (m : Action A) w,
    match m w with
    | Normal (a, w') => k a w'
    | Throw e => Throw e
    end.

(** [this.field]: a read of a field of an instance.  The receiver of
    every method below is an instance of the store; on anything else the
    access throws. *)
Definition read {A : Type} (this : addr) (field : DynamicProperty → A) : Action A :=
  λ w, match instances w !! this with
       | Some p => Normal (field p, w)
       | None => Throw TypeError
       end.

(** [this.field = x]: an assignment to a field of an instance. *)
Definition write (this : addr) (assign : DynamicProperty → DynamicProperty) : Action unit :=
  λ w, match instances w !! this with
       | Some p => Normal (tt, with_instances (<[this := assign p]> (instances w)) w)
       | None => Throw TypeError
       end.

(** [typeof value.clone === 'function'] and
    [typeof value.equals === 'function'], behind the [isDefined &&]
    guard of [setValue]. *)
Definition has_clone (h : Heap) (value : JsValue) : bool :=
  defined value && typeof_clone h value.

Definition has_equals (h : Heap) (value : JsValue) : bool :=
  defined value && typeof_equals h value.

(** [value.clone(result)]: a [TypeError] unless [value] is defined and
    its [clone] is a function. *)
Definition invoke_clone (value result : JsValue) : Action JsValue :=
  λ w, if has_clone (heap w) value
       then let '(h, r) := clone_body (heap w) value result in Normal (r, with_heap h w)
       else Throw TypeError.

(** [value.equals(other)]: a [TypeError] unless [value] is defined and
    its [equals] is a function. *)
Definition invoke_equals (value other : JsValue) : Action bool :=
  λ w, if has_equals (heap w) value
       then Normal (equals_body (heap w) value other, w)
       else Throw TypeError.

(** Modelled from the spec: [Cesium.Event.prototype.raiseEvent], called
    as [this._definitionChanged.raiseEvent(args)]: every currently
    subscribed listener is invoked, in subscription order, before the
    call returns.  Listeners are observers: the call is entered in the
    journal with the listeners it reached, and a listener does not call
    back into the property. *)
Definition raiseEvent (this : addr) (args : list Operand) : Action unit :=
  λ w, match instances w !! this with
       | Some p =>
           Normal (tt, with_journal
                         (journal w ++ [mkRaised this args (_listeners (_definitionChanged p))]) w)
       | None => Throw TypeError
       end.

(** Modelled from the spec: [addEventListener] and
    [removeEventListener] of [Cesium.Event], reached through the
    [definitionChanged] accessor. *)
Definition addEventListener (this : addr) (l : Listener) : Action unit :=
  write this (λ p, with_definitionChanged
                     (mkEvent (_listeners (_definitionChanged p) ++ [l])) p).

Fixpoint remove_first (l : Listener) (ls : list Listener) : list Listener :=
  match ls with
  | [] => []
  | x :: rest => if Nat.eqb x l then rest else x :: remove_first l rest
  end.

Definition removeEventListener (this : addr) (l : Listener) : Action unit :=
  write this (λ p, with_definitionChanged
                     (mkEvent (remove_first l (_listeners (_definitionChanged p)))) p).

(** ** The methods of [DynamicProperty] *)

(** [isConstant], getter (lines 33-35). *)
Definition get_isConstant (this : addr) : Action JsValue :=
  read this _constant.

(** [isConstant], setter (lines 36-41). *)
Definition set_isConstant (this : addr) (value : JsValue) : Action unit :=
  constant ← read this _constant;
  if negb (strict_equals constant value) then
    write this (with_constant value);;
    raiseEvent this [Instance this]
  else mret tt.

(** [definitionChanged], getter (lines 53-55). *)
Definition definitionChanged (this : addr) : Action Event :=
  read this _definitionChanged.

(** [getValue(time, result)] (lines 66-68). *)
Definition getValue (this : addr) (time result : JsValue) : Action JsValue :=
  hasClone ← read this _hasClone;
  value ← read this _value;
  if (hasClone : bool) then invoke_clone value result else mret value.

(** [isDefined && typeof value.clone === 'function'] (line 82) and its
    sibling (line 83).  [&&] does not evaluate its right operand when
    [isDefined] is false. *)
Definition detect_clone (isDefined : bool) (value : JsValue) : Action bool :=
  λ w, Normal (if isDefined then typeof_clone (heap w) value else false, w).

Definition detect_equals (isDefined : bool) (value : JsValue) : Action bool :=
  λ w, Normal (if isDefined then typeof_equals (heap w) value else false, w).

(** [!hasEquals || !value.equals(oldValue)] (line 88).  [||] does not
    call [equals] when [hasEquals] is false. *)
Definition changed_by (hasEquals : bool) (value oldValue : JsValue) : Action bool :=
  if negb hasEquals then mret true
  else same ← invoke_equals value oldValue; mret (negb same).

(** [!hasClone ? value : value.clone()] (line 90). *)
Definition stored_copy (hasClone : bool) (value : JsValue) : Action JsValue :=
  if negb hasClone then mret value else invoke_clone value VUndefined.

(** [setValue(value)] (lines 78-94). *)
Definition setValue (this : addr) (value : JsValue) : Action unit :=
  oldValue ← read this _value;
  if negb (strict_equals oldValue value) then
    let isDefined := defined value in
    hasClone ← detect_clone isDefined value;
    hasEquals ← detect_equals isDefined value;
    write this (with_hasClone hasClone);;
    write this (with_hasEquals hasEquals);;
    changed ← changed_by hasEquals value oldValue;
    if (changed : bool) then
      copy ← stored_copy hasClone value;
      write this (with_value copy);;
      raiseEvent this [Instance this]
    else mret tt
  else mret tt.

(** [new DynamicProperty(value)] (lines 14-21): a new instance, with
    its fields initialised in the order of the source, then
    [this.setValue(value)]. *)
Definition blank : DynamicProperty :=
  mkDynamicProperty VUndefined false false (mkEvent []) (VBoolean false).

Definition allocate : Action addr :=
  λ w, let this := fresh (dom (instances w)) in
       Normal (this, with_instances (<[this := blank]> (instances w)) w).

Definition construct (value : JsValue) : Action addr :=
  this ← allocate;
  setValue this value;;
  mret this.

(** [equals(other)] (lines 103-108).  [other instanceof DynamicProperty]
    holds of the instances in the store. *)
Definition equals (this : addr) (other : Operand) : Action bool :=
  if same_instance this other then mret true
  else
    match other with
    | Instance q =>
        λ w, match instances w !! q with
             | Some _ =>
                 (hasEquals ← read this _hasEquals;
                  value ← read this _value;
                  otherValue ← read q _value;
                  if negb (hasEquals : bool) && strict_equals value otherValue then mret true
                  else if hasEquals then invoke_equals value otherValue
                  else mret false) w
             | None => Normal (false, w)
             end
    | Foreign _ => mret false
    end.

(** What an action returns to its caller, without the world. *)
Definition outcome {A : Type} (c : Completion (A * World)) : Completion A :=
  match c with
  | Normal (a, _) => Normal a
  | Throw e => Throw e
  end.

(** Probes for stating what a test would observe: the [raiseEvent]
    calls so far, their number, and the capabilities a value has now. *)
Definition raised_so_far : Action (list Raised) :=
  λ w, Normal (journal w, w).

Definition raised_count : Action nat :=
  λ w, Normal (length (journal w), w).

Definition capabilities (value : JsValue) : Action (bool * bool) :=
  λ w, Normal ((has_clone (heap w) value, has_equals (heap w) value), w).

(** ** What one call of [setValue] leaves behind *)

(** The record [setValue] leaves at [this] once both flags are
    assigned (lines 85-86). *)
Definition flagged (h : Heap) (value : JsValue) (p : DynamicProperty) : DynamicProperty :=
  with_hasEquals (has_equals h value) (with_hasClone (has_clone h value) p).

(** The heap and the value line 90 produces. *)
Definition copy_of (h : Heap) (value : JsValue) : Heap * JsValue :=
  if has_clone h value then clone_body h value VUndefined else (h, value).

(** The two flags say what the stored value can do. *)
Definition flags_agree (h : Heap) (p : DynamicProperty) : Prop :=
  _hasClone p = has_clone h (_value p)
  ∧ _hasEquals p = has_equals h (_value p).

(** The entry one [raiseEvent(this)] adds to the journal. *)
Definition notice (this : addr) (p : DynamicProperty) : Raised :=
  mkRaised this [Instance this] (_listeners (_definitionChanged p)).

End Semantics.

Arguments World : clear implicits.
Arguments Action : clear implicits.

(** ** What [getValue] documents about [clone]

    The documentation of [getValue] (lines 63-64) states what the
    [clone] it delegates to does with [result]: "The object to store the
    value into, if omitted, a new instance is created and returned", and
    it returns "The modified result parameter or a new instance if the
    result parameter was not supplied". *)
Class CloneContract (host : Host) : Prop := {
  clone_into_result : ∀ (h : Heap) (value result : JsValue),
    has_clone h value = true → defined result = true →
    (clone_body h value result).2 = result;
  clone_new_instance : ∀ (h : Heap) (value result : JsValue),
    has_clone h value = true → defined result = false →
    strict_equals (clone_body h value result).2 value = false
}.

(** ** A host with vector-like objects *)

(** A small host in the style of the values such a property holds:
    objects with numeric components [x, y, ...] that are either object
    literals (no methods), or carry [equals], or carry [clone] and
    [equals].  The methods are written the way the library writes them:
<<
    equals(right) { return this === right ||
                      (defined(right) && this.x === right.x && ...); }
    clone(result) { if (!defined(result)) return new C(this.x, ...);
                    result.x = this.x; ...; return result; }
>>
    [equals] compares the components the receiver has, so an object
    with fewer components can equal one with more, and not the other way
    round. *)
Module Cartesian.

Inductive Shape : Type :=
| Literal
| Comparable
| Vector.

Record Obj : Type := mkObj {
  shape : Shape;
  components : list Z
}.

(** [this.x === right.x && this.y === right.y && ...], over the
    components of [this]; a component missing on the right is
    [undefined] and identical to no number. *)
Fixpoint components_match (mine theirs : list Z) : bool :=
  match mine, theirs with
  | [], _ => true
  | m :: ms, t :: ts => Z.eqb m t && components_match ms ts
  | _ :: _, [] => false
  end.

(** [result.x = this.x; result.y = this.y; ...] *)
Definition overwrite (mine theirs : list Z) : list Z :=
  mine ++ drop (length mine) theirs.

Definition lookup_object (h : list Obj) (v : JsValue) : option Obj :=
  match v with
  | VObject a => h !! a
  | _ => None
  end.

Definition typeof_clone (h : list Obj) (v : JsValue) : bool :=
  match lookup_object h v with
  | Some o => match shape o with Vector => true | _ => false end
  | None => false
  end.

Definition typeof_equals (h : list Obj) (v : JsValue) : bool :=
  match lookup_object h v with
  | Some o => match shape o with Literal => false | _ => true end
  | None => false
  end.

Definition equals_body (h : list Obj) (this right : JsValue) : bool :=
  match lookup_object h this with
  | Some o =>
      strict_equals this right
      || (defined right
          && components_match (components o)
               (match lookup_object h right with
                | Some o' => components o'
                | None => []
                end))
  | None => false
  end.

Definition clone_body (h : list Obj) (this result : JsValue) : list Obj * JsValue :=
  match lookup_object h this with
  | Some o =>
      if defined result then
        match result with
        | VObject r =>
            (alter (λ o', mkObj (shape o') (overwrite (components o) (components o'))) r h,
             result)
        | _ => (h, result)
        end
      else (h ++ [mkObj Vector (components o)], VObject (length h))
  | None => (h, VUndefined)
  end.

#[export] Instance host : Host :=
  Build_Host (list Obj) typeof_clone typeof_equals clone_body equals_body.

(** A world with no property instance yet, whose heap holds the given
    objects at addresses [0, 1, ...]. *)
Definition world_of (h : list Obj) : World host := mkWorld h ∅ [].

(** Four objects: the literal [{x: 1, y: 2}] at address 0, the vectors
    [(1, 2)] and [(1, 2, 3)] at addresses 1 and 2, and at address 3 an
    object [{x: 1, y: 2}] that has [equals] and no [clone]. *)
Definition objects : list Obj :=
  [mkObj Literal [1; 2]%Z; mkObj Vector [1; 2]%Z;
   mkObj Vector [1; 2; 3]%Z; mkObj Comparable [1; 2]%Z].

(** The same heap with one instance at address 0, as the constructor
    leaves it when called without a value. *)
Definition one_blank : World host := mkWorld objects {[0 := blank]} [].

(** The same with the literal stored, as [new DynamicProperty(literal)]
    leaves it: the reference itself is stored, and the constructor's
    [setValue] has raised the event once, to no listener. *)
Definition holding_literal : World host :=
  mkWorld objects {[0 := with_value (VObject 0) blank]} [notice 0 blank].


(** Two instances as the constructor leaves them when called without
    a value. *)
Definition two_blank : World host :=
  mkWorld objects {[0 := blank; 1 := blank]} [].

(** The state the failing input of C4 leads to, beside a second
    instance that holds the same literal: the literal stored under both
    flags. *)
Definition stale : World host :=
  mkWorld objects
    {[0 := mkDynamicProperty (VObject 0) true true (mkEvent []) (VBoolean false);
      1 := with_value (VObject 0) blank]}
    [notice 0 blank; notice 1 blank].

(** Two instances that hold the vectors (1, 2) and (1, 2, 3) under both
    flags. *)
Definition two_vectors : World host :=
  mkWorld objects
    {[0 := mkDynamicProperty (VObject 1) true true (mkEvent []) (VBoolean false);
      1 := mkDynamicProperty (VObject 2) true true (mkEvent []) (VBoolean false)]}
    [].

End Cartesian.

(** ** A host whose objects only clone *)

(** Objects with [clone] and without [equals]: the heap is the number of
    objects allocated so far, and [clone] without [result] allocates the
    next one. *)
Module Snapshot.

Definition typeof_clone (h : nat) (v : JsValue) : bool :=
  match v with
  | VObject a => Nat.ltb a h
  | _ => false
  end.

Definition typeof_equals (h : nat) (v : JsValue) : bool := false.

Definition clone_body (h : nat) (this result : JsValue) : nat * JsValue :=
  if defined result then (h, result) else (S h, VObject h).

Definition equals_body (h : nat) (this right : JsValue) : bool :=
  strict_equals this right.

#[export] Instance host : Host :=
  Build_Host nat typeof_clone typeof_equals clone_body equals_body.

(** One object, and one instance that holds nothing yet. *)
Definition one_blank : World host := mkWorld 1 {[0 := blank]} [].

End Snapshot.

(** * Properties *)

(** ** Identity of values *)

Lemma SFcompare_antisym f1 f2 :
  SFcompare f2 f1 = CompOpp <$> SFcompare f1 f2.
Proof.
  destruct f1 as [s1|s1| |s1 m1 e1], f2 as [s2|s2| |s2 m2 e2];
    try reflexivity; try (by destruct s1); try (by destruct s2);
    try (by destruct s1, s2).
  cbn [SFcompare fmap option_fmap option_map].
  assert (Hm : Pos.compare_cont Eq m2 m1 = CompOpp (Pos.compare_cont Eq m1 m2))
    by (by rewrite Pos.compare_cont_antisym).
  rewrite (Z.compare_antisym e1 e2), Hm.
  by destruct s1, s2, (e1 ?= e2)%Z, (Pos.compare_cont Eq m1 m2).
Qed.

Lemma SFeqb_sym f1 f2 : SFeqb f2 f1 = SFeqb f1 f2.
Proof.
  unfold SFeqb. rewrite SFcompare_antisym.
  by destruct (SFcompare f1 f2) as [[]|].
Qed.

Lemma SFeqb_irreflexive_nan f : SFeqb f f = false → f = S754_nan.
Proof.
  destruct f as [s|s| |s m e]; try done.
  - by destruct s.
  - unfold SFeqb, SFcompare. rewrite Z.compare_refl, Pos.compare_cont_refl.
    by destruct s.
Qed.

(** [a === b] and [b === a] are the same test. *)
Lemma strict_equals_sym (a b : JsValue) :
  strict_equals b a = strict_equals a b.
Proof.
  destruct a as [| |c|x|s|n], b as [| |c'|y|s'|n']; try reflexivity;
    cbn [strict_equals].
  - by destruct c, c'.
  - by rewrite !FloatAxioms.eqb_spec, SFeqb_sym.
  - apply String.eqb_sym.
  - apply Nat.eqb_sym.
Qed.

(** A value that is not identical to itself ([NaN]) is identical to
    nothing. *)
Lemma strict_equals_never (a b : JsValue) :
  strict_equals a a = false → strict_equals b a = false.
Proof.
  destruct a as [| |c|x|s|n]; cbn [strict_equals]; try done.
  - by destruct c.
  - rewrite FloatAxioms.eqb_spec. intros Hnan%SFeqb_irreflexive_nan.
    destruct b as [| |c|y|s|n]; try reflexivity. cbn [strict_equals].
    rewrite FloatAxioms.eqb_spec, Hnan. unfold SFeqb. by destruct (Prim2SF y).
  - by rewrite String.eqb_refl.
  - by rewrite Nat.eqb_refl.
Qed.

Section Properties.
Context {host : Host}.
Implicit Types (w : World host) (p : DynamicProperty) (this : addr).
Implicit Types (value result time : JsValue).

(** ** Running actions *)

Lemma run_bind {A B} (m : Action host A) (k : A → Action host B) w :
  (m ≫= k) w = match m w with
               | Normal (a, w') => k a w'
               | Throw e => Throw e
               end.
Proof. reflexivity. Qed.

Ltac run_step :=
  lazymatch goal with
  | |- context [@mbind _ _ _ _ ?k ?m ?w] =>
      let E := fresh "E" in
      pose proof (run_bind m k w) as E; rewrite E; clear E; cbn beta iota
  end.

Lemma run_read {A} this (field : DynamicProperty → A) w p :
  instances w !! this = Some p →
  read this field w = Normal (field p, w).
Proof. intros Hp. unfold read. by rewrite Hp. Qed.

Lemma run_write this assign w p :
  instances w !! this = Some p →
  write this assign w
  = Normal (tt, with_instances (<[this := assign p]> (instances w)) w).
Proof. intros Hp. unfold write. by rewrite Hp. Qed.

Lemma run_raiseEvent this args w p :
  instances w !! this = Some p →
  raiseEvent this args w
  = Normal (tt, with_journal
                  (journal w ++ [mkRaised this args (_listeners (_definitionChanged p))]) w).
Proof. intros Hp. unfold raiseEvent. by rewrite Hp. Qed.

Lemma detect_clone_has_clone value w :
  detect_clone (defined value) value w = Normal (has_clone (heap w) value, w).
Proof. unfold detect_clone, has_clone. by destruct (defined value). Qed.

Lemma detect_equals_has_equals value w :
  detect_equals (defined value) value w = Normal (has_equals (heap w) value, w).
Proof. unfold detect_equals, has_equals. by destruct (defined value). Qed.

Lemma run_changed_by value oldValue w :
  changed_by (has_equals (heap w) value) value oldValue w
  = Normal (negb (has_equals (heap w) value)
            || negb (equals_body (heap w) value oldValue), w).
Proof.
  unfold changed_by, invoke_equals.
  destruct (has_equals (heap w) value) eqn:He; cbn [negb orb]; [|reflexivity].
  run_step. by rewrite He.
Qed.

Lemma run_stored_copy value w :
  stored_copy (has_clone (heap w) value) value w
  = Normal ((copy_of (heap w) value).2, with_heap (copy_of (heap w) value).1 w).
Proof.
  unfold stored_copy, copy_of, invoke_clone.
  destruct (has_clone (heap w) value) eqn:Hc; cbn [negb].
  - rewrite Hc. by destruct (clone_body (heap w) value VUndefined).
  - by destruct w.
Qed.

(** [setValue], run on an instance of the store, branch by branch. *)
Lemma run_setValue this value w p :
  instances w !! this = Some p →
  setValue this value w
  = if strict_equals (_value p) value then Normal (tt, w)
    else if negb (has_equals (heap w) value)
            || negb (equals_body (heap w) value (_value p))
         then Normal (tt, mkWorld (copy_of (heap w) value).1
                            (<[this := with_value (copy_of (heap w) value).2
                                         (flagged (heap w) value p)]> (instances w))
                            (journal w ++ [notice this p]))
         else Normal (tt, with_instances
                            (<[this := flagged (heap w) value p]> (instances w)) w).
Proof.
  intros Hp. unfold setValue.
  run_step. rewrite (run_read _ _ _ _ Hp). cbn beta iota.
  destruct (strict_equals (_value p) value); [reflexivity|]. cbn [negb].
  run_step. rewrite detect_clone_has_clone. cbn beta iota.
  run_step. rewrite detect_equals_has_equals. cbn beta iota.
  run_step. rewrite (run_write _ _ _ _ Hp). cbn beta iota.
  run_step. unfold write at 1. cbn [instances with_instances].
  rewrite lookup_insert_eq, insert_insert_eq. cbn beta iota.
  fold (flagged (heap w) value p).
  set (w1 := with_instances _ (with_instances _ w)).
  assert (Hw1 : w1 = with_instances (<[this := flagged (heap w) value p]> (instances w)) w)
    by reflexivity.
  run_step. change (heap w) with (heap w1). rewrite run_changed_by. cbn beta iota.
  destruct (negb (has_equals (heap w1) value)
            || negb (equals_body (heap w1) value (_value p))); [|by rewrite Hw1].
  run_step. rewrite run_stored_copy. cbn beta iota.
  run_step. unfold write at 1. rewrite Hw1. cbn [instances with_instances with_heap].
  rewrite lookup_insert_eq, insert_insert_eq. cbn beta iota.
  unfold raiseEvent. cbn [instances with_instances with_heap].
  rewrite lookup_insert_eq. reflexivity.
Qed.


(** ** [setValue] *)

(** [setValue] returns on every instance of the store: the calls it
    makes are guarded by the checks of lines 82-83. *)
Lemma setValue_returns this value w p :
  instances w !! this = Some p →
  ∃ w', setValue this value w = Normal (tt, w').
Proof.
  intros Hp. rewrite (run_setValue _ _ _ _ Hp).
  destruct (strict_equals (_value p) value); [by eexists|].
  destruct (negb _ || negb _); by eexists.
Qed.

(** Where [setValue] stores, the flags it has assigned describe what it
    stores, provided a clone can do what its original can.  The branch
    that keeps the old value assigns the flags all the same (C6), and
    there they describe [value] and not what is stored. *)
Lemma setValue_stores_with_agreeing_flags this value w p :
  instances w !! this = Some p →
  strict_equals (_value p) value = false →
  negb (has_equals (heap w) value)
  || negb (equals_body (heap w) value (_value p)) = true →
  has_clone (copy_of (heap w) value).1 (copy_of (heap w) value).2
  = has_clone (heap w) value →
  has_equals (copy_of (heap w) value).1 (copy_of (heap w) value).2
  = has_equals (heap w) value →
  ∃ w' p',
    setValue this value w = Normal (tt, w')
    ∧ instances w' !! this = Some p'
    ∧ flags_agree (heap w') p'.
Proof.
  intros Hp Hnew Hchanged Hc He.
  rewrite (run_setValue _ _ _ _ Hp), Hnew, Hchanged.
  eexists _, _. split; [reflexivity|]. cbn [instances heap].
  split; [by rewrite lookup_insert_eq|].
  unfold flags_agree, flagged. cbn [with_value with_hasEquals with_hasClone
    _value _hasClone _hasEquals]. by rewrite Hc, He.
Qed.

(** C5. [setValue(v)] with [v] identical to the stored value
    ([oldValue !== value] is false) returns with the world as it was:
    the stored value, both capability flags, [isConstant], the heap and
    the journal of raised events are unchanged. *)
Theorem setValue_same_reference this value w p :
  instances w !! this = Some p →
  strict_equals (_value p) value = true →
  setValue this value w = Normal (tt, w).
Proof.
  intros Hp Hsame. by rewrite (run_setValue _ _ _ _ Hp), Hsame.
Qed.

(** C6. [setValue(v)] with [v] not identical to the stored value, [v]
    having [equals] and [v.equals(oldValue)] true: both flags are
    assigned from [v]'s capabilities, the stored value stays the
    previous one, nothing is raised, and nothing else changes. *)
Theorem setValue_equal_value this value w p :
  instances w !! this = Some p →
  strict_equals (_value p) value = false →
  has_equals (heap w) value = true →
  equals_body (heap w) value (_value p) = true →
  ∃ w',
    setValue this value w = Normal (tt, w')
    ∧ instances w' !! this
      = Some (mkDynamicProperty (_value p)
                (has_clone (heap w) value) (has_equals (heap w) value)
                (_definitionChanged p) (_constant p))
    ∧ (∀ q, q ≠ this → instances w' !! q = instances w !! q)
    ∧ journal w' = journal w
    ∧ heap w' = heap w.
Proof.
  intros Hp Hnew He Heq.
  rewrite (run_setValue _ _ _ _ Hp), Hnew, He, Heq. cbn [negb orb].
  eexists. split; [reflexivity|]. cbn [instances with_instances journal heap].
  split; [rewrite lookup_insert_eq; unfold flagged; by rewrite He|].
  split; [|done]. intros q Hq. by rewrite lookup_insert_ne.
Qed.

(** C1. [setValue(v)] with [v] not identical to the stored value:
    [changed] (line 88) is true exactly when [v] has no [equals] or
    [v.equals(oldValue)] is false; and when it is true, [setValue]
    returns with the clone made in the heap and held by the instance if
    [v] has [clone], and with the heap as it was and [v] itself held by
    the instance otherwise, and [raiseEvent] has been called once, with
    the instance as its only argument, before [setValue] returns. *)
Theorem setValue_new_reference this value w p :
  instances w !! this = Some p →
  strict_equals (_value p) value = false →
  ∃ changed : bool,
    (∀ w1, heap w1 = heap w →
       changed_by (has_equals (heap w) value) value (_value p) w1
       = Normal (changed, w1))
    ∧ (changed = true
       ↔ has_equals (heap w) value = false
         ∨ equals_body (heap w) value (_value p) = false)
    ∧ (changed = true →
       ∃ w',
         setValue this value w = Normal (tt, w')
         ∧ (heap w', _value <$> instances w' !! this)
           = (if has_clone (heap w) value
              then ((clone_body (heap w) value VUndefined).1,
                    Some (clone_body (heap w) value VUndefined).2)
              else (heap w, Some value))
         ∧ instances w' !! this
           = Some (mkDynamicProperty
                     (if has_clone (heap w) value
                      then (clone_body (heap w) value VUndefined).2
                      else value)
                     (has_clone (heap w) value) (has_equals (heap w) value)
                     (_definitionChanged p) (_constant p))
         ∧ (∀ q, q ≠ this → instances w' !! q = instances w !! q)
         ∧ journal w'
           = journal w
             ++ [mkRaised this [Instance this] (_listeners (_definitionChanged p))]).
Proof.
  intros Hp Hnew.
  exists (negb (has_equals (heap w) value)
          || negb (equals_body (heap w) value (_value p))).
  split; [|split].
  - intros w1 Hh. rewrite <- Hh. apply run_changed_by.
  - destruct (has_equals (heap w) value), (equals_body (heap w) value (_value p));
      cbn [negb orb]; intuition congruence.
  - intros Hc. rewrite (run_setValue _ _ _ _ Hp), Hnew, Hc.
    eexists. split; [reflexivity|]. cbn [instances journal heap].
    rewrite lookup_insert_eq. unfold copy_of, flagged.
    split; [by destruct (has_clone (heap w) value)|].
    split; [by destruct (has_clone (heap w) value)|].
    split; [|reflexivity]. intros q Hq. by rewrite lookup_insert_ne.
Qed.


(** ** [getValue] *)

Lemma run_getValue this time result w p :
  instances w !! this = Some p →
  getValue this time result w
  = if _hasClone p then invoke_clone (_value p) result w else Normal (_value p, w).
Proof.
  intros Hp. unfold getValue.
  run_step. rewrite (run_read _ _ _ _ Hp). cbn beta iota.
  run_step. rewrite (run_read _ _ _ _ Hp). cbn beta iota.
  by destruct (_hasClone p).
Qed.


(** ** [equals] *)

Lemma run_equals this other w p :
  instances w !! this = Some p →
  equals this other w
  = if same_instance this other then Normal (true, w)
    else match other with
         | Instance q =>
             match instances w !! q with
             | Some pq =>
                 if negb (_hasEquals p) && strict_equals (_value p) (_value pq)
                 then Normal (true, w)
                 else if _hasEquals p
                      then invoke_equals (_value p) (_value pq) w
                      else Normal (false, w)
             | None => Normal (false, w)
             end
         | Foreign _ => Normal (false, w)
         end.
Proof.
  intros Hp. unfold equals.
  destruct (same_instance this other); [reflexivity|].
  destruct other as [q|v]; [|reflexivity].
  destruct (instances w !! q) as [pq|] eqn:Hq; [|reflexivity].
  run_step. rewrite (run_read _ _ _ _ Hp). cbn beta iota.
  run_step. rewrite (run_read _ _ _ _ Hp). cbn beta iota.
  run_step. rewrite (run_read _ _ _ _ Hq). cbn beta iota.
  by destruct (_hasEquals p), (strict_equals (_value p) (_value pq)).
Qed.

Lemma same_instance_true this other :
  same_instance this other = true ↔ other = Instance this.
Proof.
  destruct other as [q|v]; cbn [same_instance].
  - rewrite Nat.eqb_eq. split; [by intros ->|by intros [= ->]].
  - split; [done|by intros [=]].
Qed.

Lemma outcome_invoke_equals value other w :
  outcome (invoke_equals value other w)
  = if has_equals (heap w) value
    then Normal (equals_body (heap w) value other)
    else Throw TypeError.
Proof. unfold invoke_equals. by destruct (has_equals (heap w) value). Qed.

(** [equals], by the cached flag of the receiver. *)
Lemma equals_by_flag this other w p :
  instances w !! this = Some p →
  outcome (equals this other w) = Normal true
  ↔ other = Instance this
    ∨ ∃ q pq,
        other = Instance q
        ∧ instances w !! q = Some pq
        ∧ ((_hasEquals p = false
            ∧ strict_equals (_value p) (_value pq) = true)
           ∨ (_hasEquals p = true
              ∧ outcome (invoke_equals (_value p) (_value pq) w) = Normal true)).
Proof.
  intros Hp. rewrite (run_equals _ _ _ _ Hp).
  destruct (same_instance this other) eqn:Hsame.
  { apply same_instance_true in Hsame. cbn [outcome]. by intuition. }
  assert (Hother : other ≠ Instance this).
  { intros Heq. apply same_instance_true in Heq. congruence. }
  destruct other as [q|v].
  - destruct (instances w !! q) as [pq|] eqn:Hq.
    + destruct (_hasEquals p) eqn:He; cbn [negb andb].
      * split.
        -- intros Hcall. right. exists q, pq. by intuition.
        -- intros [Hs|(q' & pq' & [= <-] & Hq' & [[? _]|[_ Hcall]])];
             [done|congruence|].
           by replace pq with pq' by congruence.
      * destruct (strict_equals (_value p) (_value pq)) eqn:Hs; cbn [outcome].
        -- split; [|done]. intros _. right. exists q, pq. by intuition.
        -- split; [done|].
           intros [Hs'|(q' & pq' & [= <-] & Hq' & [[_ Hs']|[? _]])];
             [done| |congruence].
           replace pq' with pq in Hs' by congruence. congruence.
    + cbn [outcome]. split; [done|].
      intros [Hs|(q' & pq' & [= <-] & Hq' & _)]; [done|congruence].
  - cbn [outcome]. split; [done|].
    intros [Hs|(q' & pq' & Hq' & _)]; done.
Qed.

(** The flags of the other instance are never read. *)
Lemma equals_ignores_other_flags this q w p pq hasClone hasEquals :
  instances w !! this = Some p →
  q ≠ this → instances w !! q = Some pq →
  outcome (equals this (Instance q)
             (with_instances
                (<[q := with_hasEquals hasEquals (with_hasClone hasClone pq)]>
                   (instances w)) w))
  = outcome (equals this (Instance q) w).
Proof.
  intros Hp Hne Hq.
  assert (Hp' : instances (with_instances
                   (<[q := with_hasEquals hasEquals (with_hasClone hasClone pq)]>
                      (instances w)) w)
                !! this = Some p).
  { cbn [instances with_instances]. by rewrite lookup_insert_ne. }
  rewrite (run_equals _ _ _ _ Hp'), (run_equals _ _ _ _ Hp).
  cbn [instances with_instances]. rewrite lookup_insert_eq, Hq.
  destruct (same_instance this (Instance q)); [reflexivity|].
  cbn [with_hasEquals with_hasClone _value].
  destruct (negb (_hasEquals p) && strict_equals (_value p) (_value pq));
    [reflexivity|].
  destruct (_hasEquals p); [|reflexivity].
  by rewrite !outcome_invoke_equals.
Qed.

(** X14. [p.equals(q)] returns [true] exactly when [q] is [p] itself,
    or [q] is an instance and either [p]'s equality flag is unset and
    the two stored values are identical, or the flag is set and
    [pValue.equals(qValue)] returns [true].  The capability flags of
    [q] play no part: assigning them anything leaves the outcome as it
    was.  Where [p]'s flag agrees with what its stored value can do, the
    flag may be read as the capability of the stored value. *)
Theorem equals_exactly_when this other w p :
  instances w !! this = Some p →
  (outcome (equals this other w) = Normal true
   ↔ other = Instance this
     ∨ ∃ q pq,
         other = Instance q
         ∧ instances w !! q = Some pq
         ∧ ((_hasEquals p = false
             ∧ strict_equals (_value p) (_value pq) = true)
            ∨ (_hasEquals p = true
               ∧ outcome (invoke_equals (_value p) (_value pq) w) = Normal true)))
  ∧ (∀ q pq hasClone hasEquals,
       q ≠ this → instances w !! q = Some pq →
       outcome (equals this (Instance q)
                  (with_instances
                     (<[q := with_hasEquals hasEquals (with_hasClone hasClone pq)]>
                        (instances w)) w))
       = outcome (equals this (Instance q) w))
  ∧ (_hasEquals p = has_equals (heap w) (_value p) →
     (outcome (equals this other w) = Normal true
      ↔ other = Instance this
        ∨ ∃ q pq,
            other = Instance q
            ∧ instances w !! q = Some pq
            ∧ ((has_equals (heap w) (_value p) = false
                ∧ strict_equals (_value p) (_value pq) = true)
               ∨ (has_equals (heap w) (_value p) = true
                  ∧ equals_body (heap w) (_value p) (_value pq) = true)))).
Proof.
  intros Hp. split; [by apply equals_by_flag|].
  split; [intros q pq hc he Hne Hq; by apply (equals_ignores_other_flags _ _ _ p)|].
  intros Hagree. rewrite (equals_by_flag _ _ _ _ Hp), Hagree.
  destruct (has_equals (heap w) (_value p)) eqn:He.
  - apply or_iff_compat_l. do 2 (apply exist_proper; intros ?).
    rewrite outcome_invoke_equals, He. intuition congruence.
  - apply or_iff_compat_l. do 2 (apply exist_proper; intros ?). intuition congruence.
Qed.


(** ** The constructor *)

Lemma run_construct value w :
  construct value w
  = match setValue (fresh (dom (instances w))) value
            (with_instances (<[fresh (dom (instances w)) := blank]> (instances w)) w)
    with
    | Normal (_, w') => Normal (fresh (dom (instances w)), w')
    | Throw e => Throw e
    end.
Proof.
  unfold construct. run_step. unfold allocate. cbn beta iota zeta.
  run_step. by destruct (setValue _ _ _) as [[[] w']|e].
Qed.

Lemma allocate_new w :
  instances w !! fresh (dom (instances w)) = None.
Proof. apply not_elem_of_dom, is_fresh. Qed.

(** The constructor returns, and the instance it leaves has the
    [_constant] and the empty event of lines 18-19. *)
Lemma construct_returns value w :
  ∃ this w' p',
    construct value w = Normal (this, w')
    ∧ instances w !! this = None
    ∧ instances w' !! this = Some p'
    ∧ _constant p' = VBoolean false
    ∧ _definitionChanged p' = mkEvent [].
Proof.
  set (this := fresh (dom (instances w))).
  set (w0 := with_instances (<[this := blank]> (instances w)) w).
  assert (Hp : instances w0 !! this = Some blank)
    by (cbn [w0 instances with_instances]; by rewrite lookup_insert_eq).
  rewrite run_construct. fold this w0. rewrite (run_setValue _ _ _ _ Hp).
  destruct (strict_equals (_value blank) value).
  { exists this, w0, blank. by repeat split; try apply allocate_new. }
  destruct (negb _ || negb _); eexists this, _, _;
    (split; [reflexivity|]); (split; [apply allocate_new|]);
    cbn [instances with_instances]; rewrite lookup_insert_eq; by repeat split.
Qed.

(** ** [isConstant] *)

Lemma run_set_isConstant this value w p :
  instances w !! this = Some p →
  set_isConstant this value w
  = if strict_equals (_constant p) value then Normal (tt, w)
    else Normal (tt, mkWorld (heap w) (<[this := with_constant value p]> (instances w))
                       (journal w ++ [notice this p])).
Proof.
  intros Hp. unfold set_isConstant.
  run_step. rewrite (run_read _ _ _ _ Hp). cbn beta iota.
  destruct (strict_equals (_constant p) value); [reflexivity|]. cbn [negb].
  run_step. rewrite (run_write _ _ _ _ Hp). cbn beta iota.
  unfold raiseEvent. cbn [instances with_instances]. by rewrite lookup_insert_eq.
Qed.

(** C8. The getter returns the current flag.  Assigning a boolean
    identical to the current flag changes nothing and raises nothing;
    assigning any other boolean stores it and calls [raiseEvent] once,
    with the instance as its only argument, and changes nothing else.
    After construction the getter returns [false]. *)
Theorem isConstant_get_set this (b : bool) w p :
  instances w !! this = Some p →
  get_isConstant this w = Normal (_constant p, w)
  ∧ (strict_equals (_constant p) (VBoolean b) = true →
     set_isConstant this (VBoolean b) w = Normal (tt, w))
  ∧ (strict_equals (_constant p) (VBoolean b) = false →
     ∃ w',
       set_isConstant this (VBoolean b) w = Normal (tt, w')
       ∧ instances w' !! this = Some (with_constant (VBoolean b) p)
       ∧ (∀ q, q ≠ this → instances w' !! q = instances w !! q)
       ∧ journal w'
         = journal w
           ++ [mkRaised this [Instance this] (_listeners (_definitionChanged p))]
       ∧ heap w' = heap w
       ∧ get_isConstant this w' = Normal (VBoolean b, w'))
  ∧ (∀ value w0,
       ∃ this0 w1,
         construct value w0 = Normal (this0, w1)
         ∧ get_isConstant this0 w1 = Normal (VBoolean false, w1)).
Proof.
  intros Hp. split; [by apply run_read|]. split; [|split].
  - intros Hsame. by rewrite (run_set_isConstant _ _ _ _ Hp), Hsame.
  - intros Hnew. rewrite (run_set_isConstant _ _ _ _ Hp), Hnew.
    eexists. split; [reflexivity|]. cbn [instances journal heap].
    split; [by rewrite lookup_insert_eq|].
    split; [intros q Hq; by rewrite lookup_insert_ne|].
    split; [reflexivity|]. split; [reflexivity|].
    unfold get_isConstant, read. cbn [instances]. by rewrite lookup_insert_eq.
  - intros value w0.
    destruct (construct_returns value w0) as (this0 & w1 & p' & Hrun & _ & Hp' & Hc & _).
    exists this0, w1. split; [done|].
    unfold get_isConstant. by rewrite (run_read _ _ _ _ Hp'), Hc.
Qed.

(** C9, as amended.  [new DynamicProperty(v)] with [v] absent
    ([undefined], as when the argument is omitted, or [null]) yields a
    new instance whose [getValue], with any arguments, returns [v], and
    whose [equals] returns [true] for itself and for every instance
    that holds the identical absent value, and [false] for an instance
    that holds anything else. *)
Theorem construct_without_value value time result w :
  defined value = false →
  ∃ this w',
    construct value w = Normal (this, w')
    ∧ instances w !! this = None
    ∧ getValue this time result w' = Normal (value, w')
    ∧ (∀ q pq,
         instances w' !! q = Some pq →
         equals this (Instance q) w'
         = Normal (Nat.eqb this q || strict_equals value (_value pq), w')).
Proof.
  intros Habsent.
  set (this := fresh (dom (instances w))).
  set (w0 := with_instances (<[this := blank]> (instances w)) w).
  assert (Hp : instances w0 !! this = Some blank)
    by (cbn [w0 instances with_instances]; by rewrite lookup_insert_eq).
  assert (Hclone : has_clone (heap w0) value = false)
    by (unfold has_clone; by rewrite Habsent).
  assert (Hequals : has_equals (heap w0) value = false)
    by (unfold has_equals; by rewrite Habsent).
  assert (Hrun : ∃ w' p',
    setValue this value w0 = Normal (tt, w')
    ∧ instances w' !! this = Some p'
    ∧ _value p' = value ∧ _hasClone p' = false ∧ _hasEquals p' = false).
  { rewrite (run_setValue _ _ _ _ Hp).
    destruct value; try discriminate; cbn [strict_equals blank _value].
    - exists w0, blank. by repeat split.
    - rewrite Hequals. cbn [negb orb]. eexists _, _. split; [reflexivity|].
      cbn [instances]. rewrite lookup_insert_eq. unfold flagged, copy_of.
      rewrite Hclone, Hequals. by repeat split. }
  destruct Hrun as (w' & p' & Hrun & Hp' & Hv & Hc & He).
  exists this, w'. split; [|split; [apply allocate_new|split]].
  - rewrite run_construct. fold this w0. by rewrite Hrun.
  - by rewrite (run_getValue _ _ _ _ _ Hp'), Hc, Hv.
  - intros q pq Hq. rewrite (run_equals _ _ _ _ Hp'), Hq, He, Hv.
    cbn [same_instance negb andb].
    by destruct (this =? q), (strict_equals value (_value pq)).
Qed.

(** ** Two calls of [setValue] *)

(** C7, as amended.  Let [a] be new to the instance ([a] is not the
    stored reference and [a.equals(stored)] is false), as it is to an
    instance constructed without a value when [a.equals(undefined)] is
    false.  Let [a] and [b] have [equals], [a.equals(b)] be true,
    [equals] be symmetric on [a] and [b], and the copy of [a] that the
    first call stores compare with [b] as [a] does.  Then
    [setValue(a); setValue(b)] raises the event once, in the first
    call, and the second call raises nothing. *)
Theorem setValue_twice_equal this a b w p :
  instances w !! this = Some p →
  strict_equals (_value p) a = false →
  has_equals (heap w) a = true →
  equals_body (heap w) a (_value p) = false →
  has_equals (heap w) b = true →
  equals_body (heap w) a b = true →
  equals_body (heap w) b a = equals_body (heap w) a b →
  has_equals (copy_of (heap w) a).1 b = has_equals (heap w) b →
  equals_body (copy_of (heap w) a).1 b (copy_of (heap w) a).2
  = equals_body (heap w) b a →
  ∃ w1 w2,
    setValue this a w = Normal (tt, w1)
    ∧ setValue this b w1 = Normal (tt, w2)
    ∧ journal w1
      = journal w
        ++ [mkRaised this [Instance this] (_listeners (_definitionChanged p))]
    ∧ journal w2 = journal w1.
Proof.
  intros Hp Hnew Ha Hdiff Hb Hab Hsym Hkeep Hcopy.
  rewrite (run_setValue _ _ _ _ Hp), Hnew, Ha, Hdiff. cbn [negb orb].
  eexists. 
  set (w1 := mkWorld _ _ _).
  assert (Hp1 : instances w1 !! this
                = Some (with_value (copy_of (heap w) a).2 (flagged (heap w) a p)))
    by (cbn [w1 instances]; by rewrite lookup_insert_eq).
  rewrite (run_setValue _ _ _ _ Hp1). cbn [w1 heap with_value _value].
  rewrite Hkeep, Hb, Hcopy, Hsym, Hab. cbn [negb orb].
  destruct (strict_equals (copy_of (heap w) a).2 b);
    eexists; (split; [reflexivity|]); (split; [reflexivity|]); by split.
Qed.

(** * Frames, compositions and failures *)

(** ** What [setValue] leaves alone *)

(** What one call of [setValue] can and cannot change. *)
Lemma setValue_effect this value w p :
  instances w !! this = Some p →
  ∃ w' p',
    setValue this value w = Normal (tt, w')
    ∧ instances w' !! this = Some p'
    ∧ _constant p' = _constant p
    ∧ _definitionChanged p' = _definitionChanged p
    ∧ (∀ q, q ≠ this → instances w' !! q = instances w !! q)
    ∧ ((journal w' = journal w ∧ _value p' = _value p ∧ heap w' = heap w)
       ∨ (journal w'
          = journal w
            ++ [mkRaised this [Instance this] (_listeners (_definitionChanged p))]
          ∧ (heap w', _value p') = copy_of (heap w) value)).
Proof.
  intros Hp. rewrite (run_setValue _ _ _ _ Hp).
  destruct (strict_equals (_value p) value).
  { exists w, p. repeat split; try done. by left. }
  destruct (negb _ || negb _); eexists _, _; (split; [reflexivity|]);
    cbn [instances with_instances journal heap]; rewrite lookup_insert_eq;
    (split; [reflexivity|]); (split; [reflexivity|]); (split; [reflexivity|]);
    (split; [intros q Hq; by rewrite lookup_insert_ne|]).
  - right. split; [reflexivity|]. cbn [with_value _value].
    by destruct (copy_of (heap w) value).
  - by left.
Qed.

(** X1. Whenever [setValue] returns, it has assigned neither
    [_constant] nor [_definitionChanged], has touched no other instance,
    and has called [raiseEvent] at most once: exactly when it has
    assigned [_value] (lines 90-91). *)
Theorem setValue_frame this value w w' p :
  instances w !! this = Some p →
  setValue this value w = Normal (tt, w') →
  ∃ p',
    instances w' !! this = Some p'
    ∧ _constant p' = _constant p
    ∧ _definitionChanged p' = _definitionChanged p
    ∧ (∀ q, q ≠ this → instances w' !! q = instances w !! q)
    ∧ ((journal w' = journal w ∧ _value p' = _value p ∧ heap w' = heap w)
       ∨ (journal w'
          = journal w
            ++ [mkRaised this [Instance this] (_listeners (_definitionChanged p))]
          ∧ (heap w', _value p') = copy_of (heap w) value)).
Proof.
  intros Hp Hrun.
  destruct (setValue_effect this value w p Hp) as (w0 & p' & Hrun0 & Hrest).
  rewrite Hrun0 in Hrun. injection Hrun as <-. by exists p'.
Qed.

(** ** [setValue] twice with one reference *)

(** X2. For a value that is not cloned on store and is identical to
    itself, a second [setValue] with the same reference does nothing at
    all, whichever branch the first call took. *)
Theorem setValue_again_without_clone this value w w1 p :
  instances w !! this = Some p →
  has_clone (heap w) value = false →
  strict_equals value value = true →
  setValue this value w = Normal (tt, w1) →
  setValue this value w1 = Normal (tt, w1).
Proof.
  intros Hp Hc Hrefl. rewrite (run_setValue _ _ _ _ Hp).
  destruct (strict_equals (_value p) value) eqn:Hsame.
  { intros [= <-]. by rewrite (run_setValue _ _ _ _ Hp), Hsame. }
  destruct (negb (has_equals (heap w) value)
            || negb (equals_body (heap w) value (_value p))) eqn:Hchanged;
    intros [= <-].
  - unfold copy_of. rewrite Hc. cbn [fst snd].
    erewrite run_setValue
      by (cbn [instances]; apply lookup_insert_eq).
    cbn [with_value _value]. by rewrite Hrefl.
  - erewrite run_setValue
      by (cbn [instances with_instances]; apply lookup_insert_eq).
    cbn [heap with_instances flagged with_hasEquals with_hasClone _value instances].
    rewrite Hsame, Hchanged, insert_insert_eq. reflexivity.
Qed.


(** ** [setValue], then [getValue] *)

(** X4. After a [setValue] that stores a value without [clone],
    [getValue] returns that very value, for every [time] and [result],
    and changes nothing. *)
Theorem setValue_then_getValue this value time result w p :
  instances w !! this = Some p →
  strict_equals (_value p) value = false →
  has_clone (heap w) value = false →
  negb (has_equals (heap w) value)
  || negb (equals_body (heap w) value (_value p)) = true →
  ∃ w',
    setValue this value w = Normal (tt, w')
    ∧ getValue this time result w' = Normal (value, w').
Proof.
  intros Hp Hnew Hc Hchanged.
  rewrite (run_setValue _ _ _ _ Hp), Hnew, Hchanged.
  eexists. split; [reflexivity|].
  erewrite run_getValue by (cbn [instances]; apply lookup_insert_eq).
  cbn [with_value flagged with_hasEquals with_hasClone _hasClone _value].
  unfold copy_of. by rewrite Hc.
Qed.

(** ** Two instances, one value *)

(** X5. Take two distinct instances and a value with neither [clone]
    nor [equals] that is identical to itself and that neither instance
    holds yet.  Once both are set to it, each equals the other. *)
Theorem equals_after_sharing_value this other value w p q :
  this ≠ other →
  instances w !! this = Some p →
  instances w !! other = Some q →
  strict_equals (_value p) value = false →
  strict_equals (_value q) value = false →
  has_clone (heap w) value = false →
  has_equals (heap w) value = false →
  strict_equals value value = true →
  ∃ w',
    (setValue this value;; setValue other value) w = Normal (tt, w')
    ∧ equals this (Instance other) w' = Normal (true, w')
    ∧ equals other (Instance this) w' = Normal (true, w').
Proof.
  intros Hne Hp Hq Hnewp Hnewq Hc He Hrefl.
  assert (Hcopy : copy_of (heap w) value = (heap w, value))
    by (unfold copy_of; by rewrite Hc).
  set (p1 := with_value value (flagged (heap w) value p)).
  set (q1 := with_value value (flagged (heap w) value q)).
  set (w1 := mkWorld (heap w) (<[this := p1]> (instances w))
               (journal w ++ [notice this p])).
  set (w2 := mkWorld (heap w) (<[other := q1]> (instances w1))
               (journal w1 ++ [notice other q])).
  assert (Hq1 : instances w1 !! other = Some q)
    by (cbn [w1 instances]; by rewrite lookup_insert_ne).
  assert (Hrun1 : setValue this value w = Normal (tt, w1))
    by (by rewrite (run_setValue _ _ _ _ Hp), Hnewp, He, Hcopy).
  assert (Hrun2 : setValue other value w1 = Normal (tt, w2)).
  { rewrite (run_setValue _ _ _ _ Hq1). cbn [w1 heap].
    by rewrite Hnewq, He, Hcopy. }
  assert (Hp2 : instances w2 !! this = Some p1).
  { cbn [w2 w1 instances]. rewrite lookup_insert_ne by done.
    apply lookup_insert_eq. }
  assert (Hq2 : instances w2 !! other = Some q1)
    by (cbn [w2 instances]; apply lookup_insert_eq).
  assert (Hflagp : _hasEquals p1 = false) by (cbn; by rewrite He).
  assert (Hflagq : _hasEquals q1 = false) by (cbn; by rewrite He).
  exists w2. split; [run_step; by rewrite Hrun1|]. split.
  - rewrite (run_equals _ _ _ _ Hp2), Hq2, Hflagp. cbn [same_instance negb andb].
    rewrite (proj2 (Nat.eqb_neq _ _) Hne). cbn [p1 q1 with_value _value].
    by rewrite Hrefl.
  - rewrite (run_equals _ _ _ _ Hq2), Hp2, Hflagq. cbn [same_instance negb andb].
    rewrite (proj2 (Nat.eqb_neq _ _) (not_eq_sym Hne)). cbn [p1 q1 with_value _value].
    by rewrite Hrefl.
Qed.

(** ** The constructor *)

(** X6. Whenever [new DynamicProperty(value)] returns, the instance is
    new, the instances that exist are left as they are, its [isConstant]
    is [false] and it has no listener; and if construction has raised
    the event, which it does at most once, the raise has reached no
    listener. *)
Theorem construct_new_instance value w this w' :
  construct value w = Normal (this, w') →
  instances w !! this = None
  ∧ ∃ p',
      instances w' !! this = Some p'
      ∧ (∀ q, q ≠ this → instances w' !! q = instances w !! q)
      ∧ _constant p' = VBoolean false
      ∧ _definitionChanged p' = mkEvent []
      ∧ (journal w' = journal w
         ∨ journal w' = journal w ++ [mkRaised this [Instance this] []]).
Proof.
  set (this0 := fresh (dom (instances w))).
  set (w0 := with_instances (<[this0 := blank]> (instances w)) w).
  assert (Hp : instances w0 !! this0 = Some blank)
    by (cbn [w0 instances with_instances]; by rewrite lookup_insert_eq).
  destruct (setValue_effect this0 value w0 blank Hp)
    as (w1 & p' & Hrun & Hp' & Hconstant & Hevent & Hothers & Hjournal).
  rewrite run_construct. fold this0 w0. rewrite Hrun. intros [= <- <-].
  split; [apply allocate_new|]. exists p'. split; [done|].
  split.
  { intros q Hq. rewrite (Hothers q Hq). cbn [w0 instances with_instances].
    by rewrite lookup_insert_ne. }
  split; [done|]. split; [done|].
  destruct Hjournal as [(Hj & _ & _)|[Hj _]]; [by left|by right].
Qed.

(** ** [isConstant] twice *)

(** X7. The setter stores what it is given, without conversion to a
    boolean: for a value identical to itself, the getter then returns a
    value identical to it, and assigning it once more changes and raises
    nothing. *)
Theorem isConstant_assigned_twice this value w p :
  instances w !! this = Some p →
  strict_equals value value = true →
  ∃ w1 constant,
    set_isConstant this value w = Normal (tt, w1)
    ∧ get_isConstant this w1 = Normal (constant, w1)
    ∧ strict_equals constant value = true
    ∧ set_isConstant this value w1 = Normal (tt, w1).
Proof.
  intros Hp Hrefl. rewrite (run_set_isConstant _ _ _ _ Hp).
  destruct (strict_equals (_constant p) value) eqn:Hsame.
  - exists w, (_constant p). split; [reflexivity|].
    split; [by apply run_read|]. split; [done|].
    by rewrite (run_set_isConstant _ _ _ _ Hp), Hsame.
  - eexists _, value. split; [reflexivity|].
    split; [unfold get_isConstant; erewrite run_read
              by (cbn [instances]; apply lookup_insert_eq); reflexivity|].
    split; [done|].
    erewrite run_set_isConstant by (cbn [instances]; apply lookup_insert_eq).
    cbn [with_constant _constant]. by rewrite Hrefl.
Qed.

(** ** Values that are not identical to themselves *)

(** X8. For a value that is not identical to itself ([NaN]) and has
    neither [clone] nor [equals], every [setValue] stores the value and
    raises, and every assignment to [isConstant] stores it and raises,
    whatever the instance holds. *)
Theorem never_identical_always_raises this value w p :
  instances w !! this = Some p →
  strict_equals value value = false →
  has_clone (heap w) value = false →
  has_equals (heap w) value = false →
  (∃ w',
     setValue this value w = Normal (tt, w')
     ∧ instances w' !! this
       = Some (mkDynamicProperty value false false
                 (_definitionChanged p) (_constant p))
     ∧ heap w' = heap w
     ∧ journal w'
       = journal w
         ++ [mkRaised this [Instance this] (_listeners (_definitionChanged p))])
  ∧ (∃ w',
       set_isConstant this value w = Normal (tt, w')
       ∧ instances w' !! this = Some (with_constant value p)
       ∧ heap w' = heap w
       ∧ journal w'
         = journal w
           ++ [mkRaised this [Instance this] (_listeners (_definitionChanged p))]).
Proof.
  intros Hp Hnan Hc He. split.
  - rewrite (run_setValue _ _ _ _ Hp), (strict_equals_never _ _ Hnan), He.
    cbn [negb orb]. eexists. split; [reflexivity|]. cbn [instances heap journal].
    rewrite lookup_insert_eq. unfold copy_of, flagged. by rewrite Hc, He.
  - rewrite (run_set_isConstant _ _ _ _ Hp), (strict_equals_never _ _ Hnan).
    eexists. split; [reflexivity|]. cbn [instances journal heap].
    by rewrite lookup_insert_eq.
Qed.

(** ** Absent values *)

(** X13. [setValue(undefined)] and [setValue(null)] go through from
    every state, a state with stale flags included: the [isDefined]
    guard of lines 82-83 keeps [typeof] away from the absent value, both
    flags become [false], the absent value is stored without a call of
    [clone], the event is raised once, and [getValue] then returns the
    absent value. *)
Theorem setValue_absent_resets this value time result w p :
  instances w !! this = Some p →
  defined value = false →
  strict_equals (_value p) value = false →
  ∃ w',
    setValue this value w = Normal (tt, w')
    ∧ instances w' !! this
      = Some (mkDynamicProperty value false false (_definitionChanged p) (_constant p))
    ∧ heap w' = heap w
    ∧ journal w'
      = journal w
        ++ [mkRaised this [Instance this] (_listeners (_definitionChanged p))]
    ∧ getValue this time result w' = Normal (value, w').
Proof.
  intros Hp Habsent Hnew.
  assert (Hc : has_clone (heap w) value = false)
    by (unfold has_clone; by rewrite Habsent).
  assert (He : has_equals (heap w) value = false)
    by (unfold has_equals; by rewrite Habsent).
  assert (Hcopy : copy_of (heap w) value = (heap w, value))
    by (unfold copy_of; by rewrite Hc).
  rewrite (run_setValue _ _ _ _ Hp), Hnew, He, Hcopy. cbn [negb orb fst snd].
  eexists. split; [reflexivity|]. cbn [instances heap journal].
  assert (Hp' : <[this := with_value value (flagged (heap w) value p)]> (instances w)
                !! this
                = Some (mkDynamicProperty value false false
                          (_definitionChanged p) (_constant p))).
  { rewrite lookup_insert_eq. unfold flagged. by rewrite Hc, He. }
  split; [exact Hp'|]. split; [reflexivity|]. split; [reflexivity|].
  by erewrite run_getValue by (cbn [instances]; exact Hp').
Qed.

(** ** Stale flags are repaired by the next store *)

(** X12. A [setValue] that stores leaves both flags describing what it
    stored, whatever they said before, provided the stored copy can do
    what its original can. *)
Theorem setValue_storing_restores_flags this value w p :
  instances w !! this = Some p →
  strict_equals (_value p) value = false →
  negb (has_equals (heap w) value)
  || negb (equals_body (heap w) value (_value p)) = true →
  has_clone (copy_of (heap w) value).1 (copy_of (heap w) value).2
  = has_clone (heap w) value →
  has_equals (copy_of (heap w) value).1 (copy_of (heap w) value).2
  = has_equals (heap w) value →
  ∃ w' p',
    setValue this value w = Normal (tt, w')
    ∧ instances w' !! this = Some p'
    ∧ (heap w', _value p') = copy_of (heap w) value
    ∧ _hasClone p' = has_clone (heap w') (_value p')
    ∧ _hasEquals p' = has_equals (heap w') (_value p').
Proof.
  intros Hp Hnew Hchanged Hc He.
  rewrite (run_setValue _ _ _ _ Hp), Hnew, Hchanged.
  eexists _, _. split; [reflexivity|]. cbn [instances heap].
  split; [by rewrite lookup_insert_eq|].
  unfold flagged. cbn [with_value with_hasEquals with_hasClone
    _value _hasClone _hasEquals].
  split; [by destruct (copy_of (heap w) value)|]. by rewrite Hc, He.
Qed.

(** ** When the methods throw *)

(** X9. When [setValue(v)] keeps the stored value because [v.equals]
    of it is true, and [v] has [clone] while the stored value has not,
    it returns with the flag of [v] over the old value, and from then on
    [getValue] throws a [TypeError] for every [time] and [result]
    (line 67 calls [clone] on the stored value without a check of its
    own). *)
Theorem getValue_throws_after_keeping this value w p :
  instances w !! this = Some p →
  strict_equals (_value p) value = false →
  has_equals (heap w) value = true →
  equals_body (heap w) value (_value p) = true →
  has_clone (heap w) value = true →
  has_clone (heap w) (_value p) = false →
  ∃ w',
    setValue this value w = Normal (tt, w')
    ∧ _value <$> instances w' !! this = Some (_value p)
    ∧ ∀ time result, getValue this time result w' = Throw TypeError.
Proof.
  intros Hp Hnew He Heq Hc Hold.
  rewrite (run_setValue _ _ _ _ Hp), Hnew, He, Heq. cbn [negb orb].
  eexists. split; [reflexivity|]. cbn [instances with_instances].
  split; [by rewrite lookup_insert_eq|]. intros time result.
  erewrite run_getValue by (cbn [instances with_instances]; apply lookup_insert_eq).
  unfold flagged. cbn [with_hasEquals with_hasClone _hasClone _value].
  rewrite Hc. unfold invoke_clone. cbn [heap with_instances]. by rewrite Hold.
Qed.

(** X10. In a state whose [_hasEquals] flag is set while the stored
    value has no [equals] function, [equals] throws a [TypeError] for
    every other instance it is given (line 107), and still returns
    [true] for the receiver itself and [false] for anything that is not
    an instance. *)
Theorem equals_throws_on_stale_flag this w p :
  instances w !! this = Some p →
  _hasEquals p = true →
  has_equals (heap w) (_value p) = false →
  (∀ q pq, q ≠ this → instances w !! q = Some pq →
     equals this (Instance q) w = Throw TypeError)
  ∧ equals this (Instance this) w = Normal (true, w)
  ∧ (∀ v, equals this (Foreign v) w = Normal (false, w)).
Proof.
  intros Hp Hflag He. split; [|split].
  - intros q pq Hne Hq. rewrite (run_equals _ _ _ _ Hp), Hq, Hflag.
    cbn [same_instance negb andb].
    rewrite (proj2 (Nat.eqb_neq _ _) (not_eq_sym Hne)).
    unfold invoke_equals. by rewrite He.
  - rewrite (run_equals _ _ _ _ Hp). cbn [same_instance]. by rewrite Nat.eqb_refl.
  - intros v. by rewrite (run_equals _ _ _ _ Hp).
Qed.

(** ** Symmetry of [equals] *)

(** X11. Between two instances whose [_hasEquals] flags are both unset,
    [equals] returns, in either direction, the same boolean: [true] for
    one and the same instance, and otherwise whether the two stored
    values are identical ([===]). *)
Theorem equals_symmetric_without_flags this other w p q :
  instances w !! this = Some p →
  instances w !! other = Some q →
  _hasEquals p = false →
  _hasEquals q = false →
  equals this (Instance other) w
  = Normal (Nat.eqb this other || strict_equals (_value p) (_value q), w)
  ∧ equals other (Instance this) w = equals this (Instance other) w.
Proof.
  intros Hp Hq Hfp Hfq.
  rewrite (run_equals _ _ _ _ Hp), (run_equals _ _ _ _ Hq), Hp, Hq, Hfp, Hfq.
  cbn [same_instance negb andb]. rewrite (Nat.eqb_sym other this).
  rewrite (strict_equals_sym (_value p) (_value q)).
  split; [|reflexivity].
  destruct (this =? other); [reflexivity|].
  by destruct (strict_equals (_value p) (_value q)).
Qed.

End Properties.

(** * The vector host *)

(** The vector host keeps what [getValue] documents about [clone]. *)
#[export] Instance cartesian_clone_contract : CloneContract Cartesian.host.
Proof.
  split; intros h value result Hc Hd;
    unfold has_clone in Hc; apply andb_true_iff in Hc as [_ Hc];
    cbn in Hc; unfold Cartesian.typeof_clone in Hc;
    cbn [clone_body Cartesian.host]; unfold Cartesian.clone_body;
    destruct (Cartesian.lookup_object h value) as [o|] eqn:Ho; try discriminate;
    rewrite Hd.
  - by destruct result.
  - destruct value as [| | | | |a]; try discriminate. cbn in Ho |- *.
    apply lookup_lt_Some in Ho. apply Nat.eqb_neq. lia.
Qed.

(** Address 1 holds the vector (1, 2) and address 2 the vector
    (1, 2, 3): the first equals the second, and not the other way
    round. *)
Example equals_is_not_symmetric :
  Cartesian.equals_body Cartesian.objects (VObject 1) (VObject 2) = true
  ∧ Cartesian.equals_body Cartesian.objects (VObject 2) (VObject 1) = false.
Proof. by split. Qed.

(** ** Scenarios *)

(** Two listeners subscribe, and one unsubscribes again: a raise reaches
    the listeners subscribed at that moment, in subscription order. *)
Example raise_reaches_listeners_in_order :
  ∃ w',
    (this ← construct VUndefined;
     addEventListener this 5;;
     addEventListener this 3;;
     addEventListener this 8;;
     removeEventListener this 3;;
     setValue this (VString "x");;
     raised_so_far)
      (Cartesian.world_of Cartesian.objects)
    = Normal ([mkRaised 0 [Instance 0] [5; 8]], w').
Proof. eexists. vm_compute. reflexivity. Qed.

(** [NaN !== NaN]: setting [NaN] on a property that holds [NaN] is a
    change like any other. *)
Example setValue_NaN_is_new_each_time :
  ∃ w',
    (this ← construct (VNumber nan);
     setValue this (VNumber nan);;
     raised_count)
      (Cartesian.world_of Cartesian.objects)
    = Normal (2, w').
Proof. eexists. vm_compute. reflexivity. Qed.

(** The scenario of the specification: a property constructed with the
    vector (1, 2) and set to the vector (1, 2, 3) raises the event for
    the second time, [getValue] returns a new vector and not the stored
    one, and the property equals a second property that holds its own
    copy of (1, 2, 3). *)
Example construct_set_get_equals :
  ∃ w',
    (this ← construct (VObject 1);
     setValue this (VObject 2);;
     raised ← raised_count;
     stored ← read this _value;
     got ← getValue this VUndefined VUndefined;
     other ← construct (VObject 2);
     same ← equals this (Instance other);
     mret (raised, stored, got, same))
      (Cartesian.world_of Cartesian.objects)
    = Normal ((2, VObject 5, VObject 6, true), w').
Proof. eexists. vm_compute. reflexivity. Qed.


(** C7, counterexample.  [a] is the vector (1, 2), [b] the vector
    (1, 2, 3); both have [equals] and [a.equals(b)] is true.  On a
    property constructed without a value, [setValue(a)] raises the event
    and so does [setValue(b)], because line 88 asks [b.equals(...)] of
    the stored copy of [a]: the journal holds one entry after the first
    call and two after the second. *)
Lemma setValue_twice_raises_twice :
  ∃ w',
    (this ← construct VUndefined;
     a ← capabilities (VObject 1);
     b ← capabilities (VObject 2);
     same ← invoke_equals (VObject 1) (VObject 2);
     before ← raised_count;
     setValue this (VObject 1);;
     first ← raised_count;
     setValue this (VObject 2);;
     second ← raised_count;
     mret (a.2, b.2, same, before, first, second))
      (Cartesian.world_of Cartesian.objects)
    = Normal ((true, true, true, 0, 1, 2), w').
Proof. eexists. vm_compute. reflexivity. Qed.

(** C9, counterexample.  One property is constructed without a value
    and one with [null].  Both hold an absent value, and [equals]
    returns [false]: [undefined === null] is false. *)
Lemma equals_of_undefined_and_null :
  ∃ w',
    (this ← construct VUndefined;
     other ← construct VNull;
     mine ← getValue this VUndefined VUndefined;
     theirs ← getValue other VUndefined VUndefined;
     same ← equals this (Instance other);
     mret (defined mine, defined theirs, same))
      (Cartesian.world_of Cartesian.objects)
    = Normal ((false, false, false), w').
Proof. eexists. vm_compute. reflexivity. Qed.

(** C3, at the failing input.  Two properties are constructed with one
    and the same literal [{x: 1, y: 2}], which has no [equals], and the
    first is then set to the vector (1, 2), which equals the literal:
    the literal stays stored in both.  The stored values are the same
    reference and the stored value of the first has no [equals], yet
    [equals] of the first on the second throws a [TypeError] at line
    107, while [equals] of the second on the first returns [true]. *)
Theorem equals_throws_on_same_reference :
  (∃ w',
     (this ← construct (VObject 0);
      other ← construct (VObject 0);
      setValue this (VObject 1);;
      mine ← read this _value;
      theirs ← read other _value;
      can ← capabilities mine;
      mret (mine, theirs, strict_equals mine theirs, can.2))
       (Cartesian.world_of Cartesian.objects)
     = Normal ((VObject 0, VObject 0, true, false), w'))
  ∧ (this ← construct (VObject 0);
     other ← construct (VObject 0);
     setValue this (VObject 1);;
     equals this (Instance other))
      (Cartesian.world_of Cartesian.objects)
    = Throw TypeError
  ∧ (∃ w',
       (this ← construct (VObject 0);
        other ← construct (VObject 0);
        setValue this (VObject 1);;
        equals other (Instance this))
         (Cartesian.world_of Cartesian.objects)
       = Normal (true, w')).
Proof.
  split; [eexists; vm_compute; reflexivity|].
  split; [vm_compute; reflexivity|eexists; vm_compute; reflexivity].
Qed.

(** C4, at the failing input.  A property is constructed with the
    literal [{x: 1, y: 2}], which has neither method and is stored as it
    is.  [setValue] of the vector (1, 2), which has both methods and
    equals the literal, assigns both flags (lines 85-86) and then keeps
    the literal (line 89): the flags say [true, true] and the stored
    value has neither capability. *)
Theorem flags_lag_behind_stored_value :
  ∃ w',
    (this ← construct (VObject 0);
     setValue this (VObject 1);;
     stored ← read this _value;
     hasClone ← read this _hasClone;
     hasEquals ← read this _hasEquals;
     can ← capabilities stored;
     mret (stored, (hasClone, hasEquals), can))
      (Cartesian.world_of Cartesian.objects)
    = Normal ((VObject 0, (true, true), (false, false)), w').
Proof. eexists. vm_compute. reflexivity. Qed.

(** C10, at the failing input.  In the state reached above the guarded
    calls are made on a value without the method: [getValue] throws a
    [TypeError] at [this._value.clone(result)], and so does [equals] at
    [this._value.equals(other._value)]. *)
Theorem stale_flag_makes_calls_throw :
  (this ← construct (VObject 0);
   setValue this (VObject 1);;
   getValue this VUndefined VUndefined)
    (Cartesian.world_of Cartesian.objects)
  = Throw TypeError
  ∧ (this ← construct (VObject 0);
     other ← construct (VObject 0);
     setValue this (VObject 1);;
     equals this (Instance other))
      (Cartesian.world_of Cartesian.objects)
    = Throw TypeError.
Proof. split; vm_compute; reflexivity. Qed.

(** ** The statements at concrete inputs *)

(** Each statement above that has premises, applied in the vector host
    to an input that meets them. *)

(** C5 at an input: the stored literal is set again. *)
Lemma setValue_same_reference_witness :
  instances Cartesian.holding_literal !! 0 = Some (with_value (VObject 0) blank)
  ∧ strict_equals (VObject 0) (VObject 0) = true
  ∧ setValue 0 (VObject 0) Cartesian.holding_literal
    = Normal (tt, Cartesian.holding_literal).
Proof.
  split; [reflexivity|]. split; [reflexivity|].
  apply (setValue_same_reference 0 (VObject 0) Cartesian.holding_literal
           (with_value (VObject 0) blank)); reflexivity.
Defined.

(** C6 at an input: the literal is stored and the equal vector is set. *)
Lemma setValue_equal_value_witness :
  strict_equals (VObject 0) (VObject 1) = false
  ∧ Cartesian.equals_body Cartesian.objects (VObject 1) (VObject 0) = true
  ∧ ∃ w',
      setValue 0 (VObject 1) Cartesian.holding_literal = Normal (tt, w')
      ∧ instances w' !! 0
        = Some (mkDynamicProperty (VObject 0) true true (mkEvent []) (VBoolean false))
      ∧ (∀ q, q ≠ 0 → instances w' !! q = instances Cartesian.holding_literal !! q)
      ∧ journal w' = journal Cartesian.holding_literal
      ∧ heap w' = heap Cartesian.holding_literal.
Proof.
  split; [reflexivity|]. split; [reflexivity|].
  apply (setValue_equal_value 0 (VObject 1) Cartesian.holding_literal
           (with_value (VObject 0) blank)); reflexivity.
Defined.

(** C1 at an input: a vector is set on an instance that holds [undefined]. *)
Lemma setValue_new_reference_witness :
  instances Cartesian.one_blank !! 0 = Some blank
  ∧ strict_equals VUndefined (VObject 1) = false
  ∧ ∃ changed : bool,
      (∀ w1 : World Cartesian.host, heap w1 = Cartesian.objects →
         changed_by true (VObject 1) VUndefined w1 = Normal (changed, w1))
      ∧ (changed = true
         ↔ true = false
           ∨ Cartesian.equals_body Cartesian.objects (VObject 1) VUndefined = false)
      ∧ (changed = true →
         ∃ w',
           setValue 0 (VObject 1) Cartesian.one_blank = Normal (tt, w')
           ∧ (heap w', _value <$> instances w' !! 0)
             = (Cartesian.objects ++ [Cartesian.mkObj Cartesian.Vector [1; 2]%Z],
                Some (VObject 4))
           ∧ instances w' !! 0
             = Some (mkDynamicProperty (VObject 4) true true (mkEvent [])
                       (VBoolean false))
           ∧ (∀ q, q ≠ 0 → instances w' !! q = instances Cartesian.one_blank !! q)
           ∧ journal w' = [mkRaised 0 [Instance 0] []]).
Proof.
  split; [reflexivity|]. split; [reflexivity|].
  apply (setValue_new_reference 0 (VObject 1) Cartesian.one_blank blank); reflexivity.
Defined.


(** X14 at an input: an instance that holds the vector (1, 2) compared
    with one that holds the vector (1, 2, 3). *)
Lemma equals_exactly_when_witness :
  instances Cartesian.two_vectors !! 0
  = Some (mkDynamicProperty (VObject 1) true true (mkEvent []) (VBoolean false))
  ∧ (outcome (equals 0 (Instance 1) Cartesian.two_vectors) = Normal true
     ↔ Instance 1 = Instance 0
       ∨ ∃ q pq,
           Instance 1 = Instance q
           ∧ instances Cartesian.two_vectors !! q = Some pq
           ∧ ((true = false ∧ strict_equals (VObject 1) (_value pq) = true)
              ∨ (true = true
                 ∧ outcome (invoke_equals (VObject 1) (_value pq) Cartesian.two_vectors)
                   = Normal true))).
Proof.
  split; [reflexivity|].
  apply (equals_exactly_when 0 (Instance 1) Cartesian.two_vectors
           (mkDynamicProperty (VObject 1) true true (mkEvent []) (VBoolean false))).
  reflexivity.
Defined.

(** C8 at an input: [isConstant = true] on a new instance. *)
Lemma isConstant_get_set_witness :
  instances Cartesian.one_blank !! 0 = Some blank
  ∧ get_isConstant 0 Cartesian.one_blank = Normal (VBoolean false, Cartesian.one_blank)
  ∧ (strict_equals (VBoolean false) (VBoolean true) = false →
     ∃ w',
       set_isConstant 0 (VBoolean true) Cartesian.one_blank = Normal (tt, w')
       ∧ instances w' !! 0 = Some (with_constant (VBoolean true) blank)
       ∧ (∀ q, q ≠ 0 → instances w' !! q = instances Cartesian.one_blank !! q)
       ∧ journal w' = [mkRaised 0 [Instance 0] []]
       ∧ heap w' = Cartesian.objects
       ∧ get_isConstant 0 w' = Normal (VBoolean true, w')).
Proof.
  split; [reflexivity|].
  destruct (isConstant_get_set 0 true Cartesian.one_blank blank eq_refl)
    as (Hget & _ & Hset & _).
  split; [exact Hget|exact Hset].
Defined.

(** C7 at an input: the vector (1, 2), then the object with [equals]
    and the same components, on a new instance. *)
Lemma setValue_twice_equal_witness :
  Cartesian.equals_body Cartesian.objects (VObject 1) VUndefined = false
  ∧ Cartesian.equals_body Cartesian.objects (VObject 1) (VObject 3) = true
  ∧ Cartesian.equals_body Cartesian.objects (VObject 3) (VObject 1) = true
  ∧ copy_of (host:=Cartesian.host) Cartesian.objects (VObject 1)
    = (Cartesian.objects ++ [Cartesian.mkObj Cartesian.Vector [1; 2]%Z], VObject 4)
  ∧ ∃ w1 w2,
      setValue 0 (VObject 1) Cartesian.one_blank = Normal (tt, w1)
      ∧ setValue 0 (VObject 3) w1 = Normal (tt, w2)
      ∧ journal w1 = [mkRaised 0 [Instance 0] []]
      ∧ journal w2 = journal w1.
Proof.
  split; [reflexivity|]. split; [reflexivity|]. split; [reflexivity|].
  split; [reflexivity|].
  apply (setValue_twice_equal 0 (VObject 1) (VObject 3) Cartesian.one_blank blank);
    reflexivity.
Defined.

(** C9 at an input: [new DynamicProperty(null)]. *)
Lemma construct_without_value_witness :
  defined VNull = false
  ∧ ∃ this w',
      construct VNull Cartesian.one_blank = Normal (this, w')
      ∧ instances Cartesian.one_blank !! this = None
      ∧ getValue this (VBoolean true) (VObject 1) w' = Normal (VNull, w')
      ∧ (∀ q pq,
           instances w' !! q = Some pq →
           equals this (Instance q) w'
           = Normal (Nat.eqb this q || strict_equals VNull (_value pq), w')).
Proof.
  split; [reflexivity|].
  apply (construct_without_value VNull (VBoolean true) (VObject 1) Cartesian.one_blank).
  reflexivity.
Defined.


(** * The further statements at concrete inputs *)

(** The host whose objects only clone keeps what [getValue] documents
    about [clone]. *)
#[export] Instance snapshot_clone_contract : CloneContract Snapshot.host.
Proof.
  split; intros h value result Hc Hd;
    cbn [clone_body Snapshot.host]; unfold Snapshot.clone_body; rewrite Hd.
  - reflexivity.
  - unfold has_clone in Hc. apply andb_true_iff in Hc as [_ Hc].
    destruct value as [| | | | |a]; try discriminate.
    cbn in Hc |- *. apply Nat.ltb_lt in Hc. apply Nat.eqb_neq. lia.
Qed.

(** X1 at an input: a vector is set on an instance that holds
    [undefined]. *)
Lemma setValue_frame_witness :
  ∃ w',
    setValue 0 (VObject 1) Cartesian.one_blank = Normal (tt, w')
    ∧ ∃ p',
        instances w' !! 0 = Some p'
        ∧ _constant p' = VBoolean false
        ∧ _definitionChanged p' = mkEvent []
        ∧ (∀ q, q ≠ 0 → instances w' !! q = instances Cartesian.one_blank !! q)
        ∧ ((journal w' = [] ∧ _value p' = VUndefined ∧ heap w' = Cartesian.objects)
           ∨ (journal w' = [mkRaised 0 [Instance 0] []]
              ∧ (heap w', _value p')
                = copy_of (host:=Cartesian.host) Cartesian.objects (VObject 1))).
Proof.
  eexists. split; [vm_compute; reflexivity|].
  apply (setValue_frame 0 (VObject 1) Cartesian.one_blank _ blank); reflexivity.
Defined.

(** X2 at an input: the literal is set twice. *)
Lemma setValue_again_without_clone_witness :
  has_clone (host:=Cartesian.host) Cartesian.objects (VObject 0) = false
  ∧ ∃ w1,
      setValue 0 (VObject 0) Cartesian.one_blank = Normal (tt, w1)
      ∧ setValue 0 (VObject 0) w1 = Normal (tt, w1).
Proof.
  split; [reflexivity|]. eexists. split; [vm_compute; reflexivity|].
  apply (setValue_again_without_clone 0 (VObject 0) Cartesian.one_blank _ blank);
    reflexivity.
Defined.


(** X4 at an input: the literal is set, then read. *)
Lemma setValue_then_getValue_witness :
  ∃ w',
    setValue 0 (VObject 0) Cartesian.one_blank = Normal (tt, w')
    ∧ getValue 0 (VBoolean true) (VObject 1) w' = Normal (VObject 0, w').
Proof.
  apply (setValue_then_getValue 0 (VObject 0) (VBoolean true) (VObject 1)
           Cartesian.one_blank blank); reflexivity.
Defined.

(** X6 at an input: [new DynamicProperty(vector)]. *)
Lemma construct_new_instance_witness :
  ∃ this w',
    construct (VObject 1) Cartesian.one_blank = Normal (this, w')
    ∧ instances Cartesian.one_blank !! this = None
    ∧ ∃ p',
        instances w' !! this = Some p'
        ∧ (∀ q, q ≠ this → instances w' !! q = instances Cartesian.one_blank !! q)
        ∧ _constant p' = VBoolean false
        ∧ _definitionChanged p' = mkEvent []
        ∧ (journal w' = []
           ∨ journal w' = [mkRaised this [Instance this] []]).
Proof.
  eexists _, _. split; [vm_compute; reflexivity|].
  apply (construct_new_instance (VObject 1) Cartesian.one_blank).
  vm_compute. reflexivity.
Defined.

(** X5 at an input: two instances are set to the literal. *)
Lemma equals_after_sharing_value_witness :
  ∃ w',
    (setValue 0 (VObject 0);; setValue 1 (VObject 0)) Cartesian.two_blank
    = Normal (tt, w')
    ∧ equals 0 (Instance 1) w' = Normal (true, w')
    ∧ equals 1 (Instance 0) w' = Normal (true, w').
Proof.
  apply (equals_after_sharing_value 0 1 (VObject 0) Cartesian.two_blank blank blank);
    try reflexivity.
  discriminate.
Defined.

(** X7 at an input: [isConstant = "yes"], twice. *)
Lemma isConstant_assigned_twice_witness :
  ∃ w1 constant,
    set_isConstant 0 (VString "yes") Cartesian.one_blank = Normal (tt, w1)
    ∧ get_isConstant 0 w1 = Normal (constant, w1)
    ∧ strict_equals constant (VString "yes") = true
    ∧ set_isConstant 0 (VString "yes") w1 = Normal (tt, w1).
Proof.
  apply (isConstant_assigned_twice 0 (VString "yes") Cartesian.one_blank blank);
    reflexivity.
Defined.

(** X8 at an input: [NaN]. *)
Lemma never_identical_always_raises_witness :
  strict_equals (VNumber nan) (VNumber nan) = false
  ∧ (∃ w',
       setValue 0 (VNumber nan) Cartesian.one_blank = Normal (tt, w')
       ∧ instances w' !! 0
         = Some (mkDynamicProperty (VNumber nan) false false (mkEvent [])
                   (VBoolean false))
       ∧ heap w' = Cartesian.objects
       ∧ journal w' = [mkRaised 0 [Instance 0] []])
  ∧ (∃ w',
       set_isConstant 0 (VNumber nan) Cartesian.one_blank = Normal (tt, w')
       ∧ instances w' !! 0 = Some (with_constant (VNumber nan) blank)
       ∧ heap w' = Cartesian.objects
       ∧ journal w' = [mkRaised 0 [Instance 0] []]).
Proof.
  split; [reflexivity|].
  apply (never_identical_always_raises 0 (VNumber nan) Cartesian.one_blank blank);
    reflexivity.
Defined.

(** X9 at an input: the literal is stored and the equal vector is
    set. *)
Lemma getValue_throws_after_keeping_witness :
  Cartesian.equals_body Cartesian.objects (VObject 1) (VObject 0) = true
  ∧ has_clone (host:=Cartesian.host) Cartesian.objects (VObject 0) = false
  ∧ ∃ w',
      setValue 0 (VObject 1) Cartesian.holding_literal = Normal (tt, w')
      ∧ _value <$> instances w' !! 0 = Some (VObject 0)
      ∧ ∀ time result, getValue 0 time result w' = Throw TypeError.
Proof.
  split; [reflexivity|]. split; [reflexivity|].
  apply (getValue_throws_after_keeping 0 (VObject 1) Cartesian.holding_literal
           (with_value (VObject 0) blank)); reflexivity.
Defined.

(** X10 at an input: the stale state. *)
Lemma equals_throws_on_stale_flag_witness :
  has_equals (host:=Cartesian.host) Cartesian.objects (VObject 0) = false
  ∧ (∀ q pq, q ≠ 0 → instances Cartesian.stale !! q = Some pq →
       equals 0 (Instance q) Cartesian.stale = Throw TypeError)
  ∧ equals 0 (Instance 0) Cartesian.stale = Normal (true, Cartesian.stale)
  ∧ (∀ v, equals 0 (Foreign v) Cartesian.stale = Normal (false, Cartesian.stale)).
Proof.
  split; [reflexivity|].
  apply (equals_throws_on_stale_flag 0 Cartesian.stale
           (mkDynamicProperty (VObject 0) true true (mkEvent []) (VBoolean false)));
    reflexivity.
Defined.

(** X11 at an input: two instances that hold [undefined]. *)
Lemma equals_symmetric_without_flags_witness :
  equals 0 (Instance 1) Cartesian.two_blank = Normal (true, Cartesian.two_blank)
  ∧ equals 1 (Instance 0) Cartesian.two_blank
    = equals 0 (Instance 1) Cartesian.two_blank.
Proof.
  apply (equals_symmetric_without_flags 0 1 Cartesian.two_blank blank blank);
    reflexivity.
Defined.

(** X12 at an input: from the stale state, the vector (1, 2, 3) is
    set. *)
Lemma setValue_storing_restores_flags_witness :
  ∃ w' p',
    setValue 0 (VObject 2) Cartesian.stale = Normal (tt, w')
    ∧ instances w' !! 0 = Some p'
    ∧ (heap w', _value p')
      = (Cartesian.objects ++ [Cartesian.mkObj Cartesian.Vector [1; 2; 3]%Z],
         VObject 4)
    ∧ _hasClone p' = has_clone (heap w') (_value p')
    ∧ _hasEquals p' = has_equals (heap w') (_value p').
Proof.
  apply (setValue_storing_restores_flags 0 (VObject 2) Cartesian.stale
           (mkDynamicProperty (VObject 0) true true (mkEvent []) (VBoolean false)));
    reflexivity.
Defined.

(** X13 at an input: from the stale state, [null] is set. *)
Lemma setValue_absent_resets_witness :
  ∃ w',
    setValue 0 VNull Cartesian.stale = Normal (tt, w')
    ∧ instances w' !! 0
      = Some (mkDynamicProperty VNull false false (mkEvent []) (VBoolean false))
    ∧ heap w' = Cartesian.objects
    ∧ journal w'
      = [notice 0 blank; notice 1 blank] ++ [mkRaised 0 [Instance 0] []]
    ∧ getValue 0 (VBoolean true) (VObject 1) w' = Normal (VNull, w').
Proof.
  apply (setValue_absent_resets 0 VNull (VBoolean true) (VObject 1) Cartesian.stale
           (mkDynamicProperty (VObject 0) true true (mkEvent []) (VBoolean false)));
    reflexivity.
Defined.
